(** * FIFO profit-and-loss of a batch of trading operations

    A shallow embedding of [main.py]: the [Direction] enumeration, the
    [TradeOperation] dataclass and the class [TradingOperations] with its
    constructor, its two private helpers and the [pnl] property.

    Modelling choices.
    - Python's [int] is [Z].
    - [decimal.Decimal] is the type [Qc] of rationals in lowest terms: every
      finite decimal is such a rational, and [+], [-], [*] and [==] on
      [Decimal] are the exact field operations and equality as long as no
      result needs more significant digits than the arithmetic context
      holds.  Rounding to the context precision, the exponent limits and the
      special values (NaN, infinities) are outside the model.
    - [trades_by_underlying] is a [defaultdict]; Python dictionaries iterate
      in the order in which their keys were first inserted, so the dictionary
      is an association list kept in insertion order, with one entry per key.
    - An element of [trades_data] is a keyword dictionary holding exactly the
      four fields of [TradeOperation]; it is represented by the record that
      the constructor call with that dictionary as keyword arguments builds.
    - The class is embedded twice.  The first embedding identifies a
      [TradeOperation] with its four fields and gives pure functions.  The
      second keeps the objects in a store, with the dictionary holding their
      addresses, and is used to state what the methods do to the objects; it
      is shown to compute what the first one computes. *)

From Stdlib Require Import ZArith QArith Qcanon List String Bool Lia Permutation.
Import ListNotations.

Local Open Scope Z_scope.

(** ** Data model *)

Inductive Direction : Type :=
| BUY
| SELL.

Definition Direction_eqb (a b : Direction) : bool :=
  match a, b with
  | BUY, BUY | SELL, SELL => true
  | _, _ => false
  end.

Abbreviation Decimal := Qc (only parsing).

(** [Decimal(n)] for a Python integer [n]; also the conversion that
    [int * Decimal] applies to its left operand.  [Decimal(0)] is written
    [0%Qc]. *)
Definition Decimal_of_int (n : Z) : Decimal := Q2Qc (inject_Z n).

Record TradeOperation : Type := mkTradeOperation {
  direction : Direction;
  quantity : Z;
  price : Decimal;
  underlying : string
}.

(** The [__eq__] that [@dataclass] generates: the tuples of fields are
    compared. *)
Definition TradeOperation_eqb (a b : TradeOperation) : bool :=
  Direction_eqb (direction a) (direction b)
  && (quantity a =? quantity b)
  && Qc_eq_bool (price a) (price b)
  && String.eqb (underlying a) (underlying b).

(** ** The dictionary of trade groups *)

(** A dictionary from names to lists of [V], in insertion order. *)
Definition dict (V : Type) : Type := list (string * list V).

Definition keys {V : Type} (d : dict V) : list string := map fst d.
Definition values {V : Type} (d : dict V) : list (list V) := map snd d.

Fixpoint get {V : Type} (d : dict V) (k : string) : option (list V) :=
  match d with
  | [] => None
  | (k', l) :: d' => if String.eqb k' k then Some l else get d' k
  end.

(** [d[k].append(v)] on a [defaultdict(lambda: list())]: a missing key is
    first bound to the empty list, at the end of the insertion order. *)
Fixpoint setdefault_append {V : Type} (d : dict V) (k : string) (v : V) : dict V :=
  match d with
  | [] => [(k, [] ++ [v])]
  | (k', l) :: d' =>
      if String.eqb k' k then (k', l ++ [v]) :: d'
      else (k', l) :: setdefault_append d' k v
  end.

(** ** class TradingOperations *)

Record TradingOperations : Type := mkTradingOperations {
  trades_by_underlying : dict TradeOperation
}.

Definition init (trades_data : list TradeOperation) : TradingOperations :=
  {| trades_by_underlying :=
       fold_left (fun d trades_operation =>
                    setdefault_append d (underlying trades_operation) trades_operation)
                 trades_data [] |}.

(** The [for] loop of [__price_of_first_n_goods] with its two mutable
    locals: [remaining] is the local [quantity], [result] the accumulator.
    The [else] branch ends in [break], so the rest of the list is not
    visited. *)
Fixpoint price_loop (trades : list TradeOperation) (remaining : Z) (result : Decimal)
  : Decimal :=
  match trades with
  | [] => result
  | t :: rest =>
      if quantity t <=? remaining
      then price_loop rest (remaining - quantity t)
                      (result + Decimal_of_int (quantity t) * price t)%Qc
      else (result + Decimal_of_int remaining * price t)%Qc
  end.

Definition price_of_first_n_goods (n : Z) (trades : list TradeOperation) : Decimal :=
  price_loop trades n 0%Qc.

Definition is_direction (d : Direction) (t : TradeOperation) : bool :=
  Direction_eqb (direction t) d.

(** Python's [sum] over integers: a left fold from [0]. *)
Definition sum_int (l : list Z) : Z := fold_left Z.add l 0.

(** [not l] for a list [l]. *)
Definition is_empty {A : Type} (l : list A) : bool :=
  match l with
  | [] => true
  | _ :: _ => false
  end.

Definition underlying_pnl (trades : list TradeOperation) : Decimal :=
  let buy_trades := filter (is_direction BUY) trades in
  let sell_trades := filter (is_direction SELL) trades in
  if is_empty buy_trades || is_empty sell_trades then 0%Qc
  else
    let buy_quantity := sum_int (map quantity buy_trades) in
    let sell_quantity := sum_int (map quantity sell_trades) in
    let matched := Z.min buy_quantity sell_quantity in
    let total_buy_prices := price_of_first_n_goods matched buy_trades in
    let total_sell_prices := price_of_first_n_goods matched sell_trades in
    (total_sell_prices - total_buy_prices)%Qc.

Definition pnl (self : TradingOperations) : Decimal :=
  fold_left (fun result trades => (result + underlying_pnl trades)%Qc)
            (values (trades_by_underlying self)) 0%Qc.

(** ** Reference definitions *)

(** Sum of a list of decimals. *)
Definition sum_Decimal (l : list Decimal) : Decimal :=
  fold_right Qcplus 0%Qc l.



Definition total_quantity (trades : list TradeOperation) : Z :=
  sum_int (map quantity trades).


(** The two sides of a trade group, each in the order of the group, and the
    volume that can be matched between them. *)
Definition buy_trades (trades : list TradeOperation) : list TradeOperation :=
  filter (is_direction BUY) trades.

Definition sell_trades (trades : list TradeOperation) : list TradeOperation :=
  filter (is_direction SELL) trades.

Definition matched_quantity (trades : list TradeOperation) : Z :=
  Z.min (total_quantity (buy_trades trades)) (total_quantity (sell_trades trades)).

(** The operations of a batch on one underlying, in the order of the batch. *)
Definition has_underlying (u : string) (t : TradeOperation) : bool :=
  String.eqb (underlying t) u.

Definition group_of (u : string) (batch : list TradeOperation) : list TradeOperation :=
  filter (has_underlying u) batch.

Definition mem (u : string) (us : list string) : bool := existsb (String.eqb u) us.

(** The distinct elements of a list of names, in the order in which each
    appears for the first time. *)
Definition distinct (us : list string) : list string :=
  fold_left (fun seen u => if mem u seen then seen else seen ++ [u]) us [].

Definition underlyings (batch : list TradeOperation) : list string :=
  distinct (map underlying batch).

(** The dictionary that groups a batch: one entry per distinct underlying,
    in the order of first appearance, bound to that underlying's group. *)
Definition grouped (batch : list TradeOperation) : dict TradeOperation :=
  map (fun u => (u, group_of u batch)) (underlyings batch).

Definition nonneg_quantities (trades : list TradeOperation) : Prop :=
  Forall (fun t => 0 <= quantity t) trades.

(** The goods of a list of trades, one after the other in the order of the
    trades: a trade of quantity [q] at price [p] is [q] units at [p]. *)
Definition units (trades : list TradeOperation) : list Decimal :=
  flat_map (fun t => repeat (price t) (Z.to_nat (quantity t))) trades.

(** What the first [n] units of a list of trades cost. *)
Definition cost_of_first_units (n : Z) (trades : list TradeOperation) : Decimal :=
  sum_Decimal (firstn (Z.to_nat n) (units trades)).

(** ** The same class over a store of objects

    In Python a [TradeOperation] is an object: the lists of
    [trades_by_underlying] hold references, and [@dataclass] without
    [frozen=True] leaves the fields assignable.  The definitions above
    identify an object with its fields.  Here the objects live in a store,
    the dictionary holds their addresses, and the methods run in a state
    monad over the store: the constructor allocates, the other methods read
    fields.  A computation that reads an address outside the store fails. *)

Definition addr : Type := nat.
Definition heap : Type := list TradeOperation.

Definition M (A : Type) : Type := heap -> option (A * heap).

Definition ret {A : Type} (a : A) : M A := fun h => Some (a, h).

Definition bind {A B : Type} (m : M A) (f : A -> M B) : M B :=
  fun h => match m h with
           | Some (a, h') => f a h'
           | None => None
           end.

Notation "x <- m ;; k" := (bind m (fun x => k))
  (at level 61, m at next level, right associativity).

(** A new object with the given fields, at the next free address. *)
Definition alloc (t : TradeOperation) : M addr :=
  fun h => Some (List.length h, h ++ [t]).

(** Reading the field [f] of the object at address [a]. *)
Definition get_field {A : Type} (f : TradeOperation -> A) (a : addr) : M A :=
  fun h => match nth_error h a with
           | Some t => Some (f t, h)
           | None => None
           end.

Record TradingOperations_obj : Type := mkTradingOperations_obj {
  trades_by_underlying_obj : dict addr
}.

Fixpoint init_loop (trades_data : list TradeOperation) (d : dict addr) : M (dict addr) :=
  match trades_data with
  | [] => ret d
  | trades_operation :: rest =>
      a <- alloc trades_operation ;;
      init_loop rest (setdefault_append d (underlying trades_operation) a)
  end.

Definition init_obj (trades_data : list TradeOperation) : M TradingOperations_obj :=
  d <- init_loop trades_data [] ;;
  ret {| trades_by_underlying_obj := d |}.

(** Every occurrence of [t.quantity] and [t.price] in the loop body is a read
    of the store, in the order in which Python evaluates them. *)
Fixpoint price_loop_obj (trades : list addr) (remaining : Z) (result : Decimal)
  : M Decimal :=
  match trades with
  | [] => ret result
  | t :: rest =>
      q <- get_field quantity t ;;
      if q <=? remaining
      then q1 <- get_field quantity t ;;
           p <- get_field price t ;;
           q2 <- get_field quantity t ;;
           price_loop_obj rest (remaining - q2) (result + Decimal_of_int q1 * p)%Qc
      else p <- get_field price t ;;
           ret (result + Decimal_of_int remaining * p)%Qc
  end.

Definition price_of_first_n_goods_obj (n : Z) (trades : list addr) : M Decimal :=
  price_loop_obj trades n 0%Qc.

(** [[t for t in trades if t.direction == d]] *)
Fixpoint select_direction (d : Direction) (trades : list addr) : M (list addr) :=
  match trades with
  | [] => ret []
  | t :: rest =>
      dir <- get_field direction t ;;
      selected <- select_direction d rest ;;
      ret (if Direction_eqb dir d then t :: selected else selected)
  end.

(** [sum(t.quantity for t in trades)], from the accumulator [acc]. *)
Fixpoint sum_quantity (trades : list addr) (acc : Z) : M Z :=
  match trades with
  | [] => ret acc
  | t :: rest =>
      q <- get_field quantity t ;;
      sum_quantity rest (acc + q)
  end.

Definition underlying_pnl_obj (trades : list addr) : M Decimal :=
  buy <- select_direction BUY trades ;;
  sell <- select_direction SELL trades ;;
  if is_empty buy || is_empty sell then ret 0%Qc
  else
    buy_quantity <- sum_quantity buy 0 ;;
    sell_quantity <- sum_quantity sell 0 ;;
    total_buy_prices <- price_of_first_n_goods_obj (Z.min buy_quantity sell_quantity) buy ;;
    total_sell_prices <- price_of_first_n_goods_obj (Z.min buy_quantity sell_quantity) sell ;;
    ret (total_sell_prices - total_buy_prices)%Qc.

Fixpoint pnl_loop (groups : list (list addr)) (result : Decimal) : M Decimal :=
  match groups with
  | [] => ret result
  | trades :: rest =>
      r <- underlying_pnl_obj trades ;;
      pnl_loop rest (result + r)%Qc
  end.

Definition pnl_obj (self : TradingOperations_obj) : M Decimal :=
  pnl_loop (values (trades_by_underlying_obj self)) 0%Qc.

(** The object at address [a] of the store [h] has the fields of [t]. *)
Definition points_to (h : heap) (a : addr) (t : TradeOperation) : Prop :=
  nth_error h a = Some t.

(** The dictionary of addresses [d] stands, in the store [h], for the
    dictionary of operations [d']. *)
Definition represents (h : heap) (d : dict addr) (d' : dict TradeOperation) : Prop :=
  Forall2 (fun e e' => fst e = fst e' /\ Forall2 (points_to h) (snd e) (snd e')) d d'.

(** A computation that leaves the store as it found it. *)
Definition read_only {A : Type} (m : M A) : Prop :=
  forall h a h', m h = Some (a, h') -> h' = h.

(** ** The test suite's batches *)

Definition op (d : Direction) (q : Z) (p : Z) (u : string) : TradeOperation :=
  mkTradeOperation d q (Decimal_of_int p) u.

Definition transactions_5 : list TradeOperation :=
  [ op BUY 1 100 "Oil"; op SELL 4 110 "Gas"; op BUY 2 120 "Gas"; op SELL 5 115 "Oil" ]%string.


Definition transactions_4 : list TradeOperation :=
  [ op BUY 1 100 "Oil"; op SELL 4 110 "Oil"; op BUY 4 120 "Oil" ]%string.

Definition transactions_1 : list TradeOperation :=
  [ op BUY 2 100 "Oil"; op BUY 2 110 "Oil"; op BUY 3 102 "Oil" ]%string.

Definition transactions_2 : list TradeOperation :=
  [ op BUY 2 100 "Oil"; op SELL 2 110 "Oil" ]%string.

Definition transactions_3 : list TradeOperation :=
  [ op BUY 1 100 "Oil"; op SELL 4 110 "Oil" ]%string.

Definition transactions_7 : list TradeOperation :=
  [ op SELL 3 10 "Oil"; op SELL 4 20 "Oil"; op BUY 10 10 "Oil"; op BUY 5 20 "Oil" ]%string.

Definition transactions_8 : list TradeOperation :=
  [ op SELL 3 11 "Oil"; op SELL 4 20 "Oil"; op BUY 2 10 "Oil"; op BUY 3 5 "Oil" ]%string.

Definition transactions_9 : list TradeOperation :=
  [ op SELL 3 1 "Oil"; op SELL 4 2 "Oil"; op BUY 2 3 "Oil"; op BUY 3 4 "Oil" ]%string.

(** ** The members of [Direction] and their values *)

Definition Direction_value (d : Direction) : string :=
  match d with
  | BUY => "Buy"
  | SELL => "Sell"
  end.

(** [Direction(s)], the member whose value is [s]; [None] stands for the
    [ValueError] raised when there is none. *)
Definition Direction_of_value (s : string) : option Direction :=
  if String.eqb s "Buy" then Some BUY
  else if String.eqb s "Sell" then Some SELL
  else None.

(** ** The constructor on keyword dictionaries

    An element of [trades_data] as the constructor receives it: a dictionary
    that may lack some of the four keys and may hold others.  The values
    under the four keys, when present, have the types of the fields;
    [kw_other] lists the keys that are not fields. *)

Record kwargs : Type := mkKwargs {
  kw_direction : option Direction;
  kw_quantity : option Z;
  kw_price : option Decimal;
  kw_underlying : option string;
  kw_other : list string
}.

Inductive exn : Type :=
| KeyError (key : string)
| TypeError.

Inductive result (A : Type) : Type :=
| Returns (a : A)
| Raises (e : exn).

Arguments Returns {A} a.
Arguments Raises {A} e.

(** The [__init__] that [@dataclass] generates has the four fields as
    parameters without defaults: a missing or an unexpected keyword is a
    [TypeError]. *)
Definition TradeOperation_new (kw : kwargs) : result TradeOperation :=
  match kw_direction kw, kw_quantity kw, kw_price kw, kw_underlying kw, kw_other kw with
  | Some d, Some q, Some p, Some u, [] => Returns (mkTradeOperation d q p u)
  | _, _, _, _, _ => Raises TypeError
  end.

(** The loop of the constructor: the subscript [trades_operation["underlying"]]
    comes first and raises [KeyError] on a dictionary without that key. *)
Fixpoint init_kwargs_loop (trades_data : list kwargs) (d : dict TradeOperation)
  : result (dict TradeOperation) :=
  match trades_data with
  | [] => Returns d
  | trades_operation :: rest =>
      match kw_underlying trades_operation with
      | None => Raises (KeyError "underlying")
      | Some u =>
          match TradeOperation_new trades_operation with
          | Raises e => Raises e
          | Returns t => init_kwargs_loop rest (setdefault_append d u t)
          end
      end
  end.

Definition init_kwargs (trades_data : list kwargs) : result TradingOperations :=
  match init_kwargs_loop trades_data [] with
  | Returns d => Returns {| trades_by_underlying := d |}
  | Raises e => Raises e
  end.

(** The keyword dictionary with exactly the four fields of [t]. *)
Definition kwargs_of (t : TradeOperation) : kwargs :=
  {| kw_direction := Some (direction t);
     kw_quantity := Some (quantity t);
     kw_price := Some (price t);
     kw_underlying := Some (underlying t);
     kw_other := [] |}.

Definition complete (kw : kwargs) : Prop :=
  exists t, kw = kwargs_of t.

(** ** Transformations of a batch *)

Definition flip_direction (d : Direction) : Direction :=
  match d with
  | BUY => SELL
  | SELL => BUY
  end.

(** The same operation in the other direction. *)
Definition flip (t : TradeOperation) : TradeOperation :=
  {| direction := flip_direction (direction t);
     quantity := quantity t;
     price := price t;
     underlying := underlying t |}.


Definition nonneg_prices (trades : list TradeOperation) : Prop :=
  Forall (fun t => (0 <= price t)%Qc) trades.

(** ** Arithmetic of [Decimal] and of [sum_int] *)

Lemma Decimal_of_int_add (a b : Z) :
  Decimal_of_int (a + b) = (Decimal_of_int a + Decimal_of_int b)%Qc.
Proof.
  apply Qc_is_canon. unfold Decimal_of_int, Qcplus. cbn [this Q2Qc].
  rewrite !Qred_correct, inject_Z_plus. reflexivity.
Qed.

Lemma Decimal_of_int_1 : Decimal_of_int 1 = 1%Qc.
Proof. reflexivity. Qed.

Lemma fold_add_shift (l : list Z) (a : Z) : fold_left Z.add l a = a + fold_left Z.add l 0.
Proof.
  revert a. induction l as [| x l IH]; intros a; simpl.
  - lia.
  - rewrite (IH (a + x)), (IH x). lia.
Qed.

Lemma sum_int_cons (x : Z) (l : list Z) : sum_int (x :: l) = x + sum_int l.
Proof. unfold sum_int. simpl. apply fold_add_shift. Qed.

Lemma total_quantity_cons (t : TradeOperation) (trades : list TradeOperation) :
  total_quantity (t :: trades) = quantity t + total_quantity trades.
Proof. unfold total_quantity. simpl. apply sum_int_cons. Qed.


(** ** The loop of [__price_of_first_n_goods] *)

Lemma price_loop_acc (trades : list TradeOperation) (n : Z) (r : Decimal) :
  price_loop trades n r = (r + price_loop trades n 0%Qc)%Qc.
Proof.
  revert n r. induction trades as [| t rest IH]; intros n r; simpl.
  - now rewrite Qcplus_0_r.
  - destruct (quantity t <=? n).
    + rewrite (IH _ (r + _)%Qc), (IH _ (0%Qc + _)%Qc). ring.
    + ring.
Qed.

Lemma price_of_first_n_goods_cons_whole (n : Z) (t : TradeOperation) (rest : list TradeOperation) :
  quantity t <= n ->
  price_of_first_n_goods n (t :: rest)
  = (Decimal_of_int (quantity t) * price t
     + price_of_first_n_goods (n - quantity t) rest)%Qc.
Proof.
  intros Hle. unfold price_of_first_n_goods. simpl.
  apply Z.leb_le in Hle. rewrite Hle, price_loop_acc. ring.
Qed.

Lemma price_of_first_n_goods_cons_part (n : Z) (t : TradeOperation) (rest : list TradeOperation) :
  n < quantity t ->
  price_of_first_n_goods n (t :: rest) = (Decimal_of_int n * price t)%Qc.
Proof.
  intros Hlt. unfold price_of_first_n_goods. simpl.
  apply Z.leb_gt in Hlt. rewrite Hlt. ring.
Qed.


(** ** The loop consumes units in order *)

Lemma sum_Decimal_app (l1 l2 : list Decimal) :
  sum_Decimal (l1 ++ l2) = (sum_Decimal l1 + sum_Decimal l2)%Qc.
Proof.
  induction l1 as [| x l1 IH]; simpl.
  - now rewrite Qcplus_0_l.
  - rewrite IH. apply Qcplus_assoc.
Qed.

Lemma sum_Decimal_repeat (p : Decimal) (k : nat) :
  sum_Decimal (repeat p k) = (Decimal_of_int (Z.of_nat k) * p)%Qc.
Proof.
  induction k as [| k IH].
  - change (0%Qc = (0 * p)%Qc). ring.
  - rewrite Nat2Z.inj_succ, <- Z.add_1_r, Decimal_of_int_add, Decimal_of_int_1.
    cbn [repeat sum_Decimal fold_right]. fold (sum_Decimal (repeat p k)).
    rewrite IH. ring.
Qed.

Lemma firstn_repeat_le {A : Type} (x : A) (m k : nat) :
  (m <= k)%nat -> firstn m (repeat x k) = repeat x m.
Proof.
  revert k. induction m as [| m IH]; intros k Hle.
  - reflexivity.
  - destruct k as [| k]; [lia |]. simpl. f_equal. apply IH. lia.
Qed.


Lemma price_of_first_n_goods_units (n : Z) (trades : list TradeOperation) :
  0 <= n -> nonneg_quantities trades ->
  price_of_first_n_goods n trades = cost_of_first_units n trades.
Proof.
  intros Hn Hq. revert n Hn.
  induction Hq as [| t rest Ht _ IH]; intros n Hn.
  - unfold cost_of_first_units. simpl. now rewrite firstn_nil.
  - unfold cost_of_first_units, units. simpl flat_map.
    rewrite firstn_app, repeat_length, sum_Decimal_app.
    destruct (Z.le_gt_cases (quantity t) n) as [Hle | Hlt].
    + rewrite price_of_first_n_goods_cons_whole by assumption.
      rewrite firstn_all2 by (rewrite repeat_length; lia).
      rewrite sum_Decimal_repeat, Z2Nat.id by assumption.
      rewrite <- Z2Nat.inj_sub by assumption.
      now rewrite IH by lia.
    + rewrite price_of_first_n_goods_cons_part by assumption.
      rewrite firstn_repeat_le by lia.
      replace (Z.to_nat n - Z.to_nat (quantity t))%nat with 0%nat by lia.
      rewrite sum_Decimal_repeat, Z2Nat.id by assumption. simpl. ring.
Qed.





(** ** One trade group *)

Lemma filter_none {A : Type} (f : A -> bool) (l : list A) :
  Forall (fun x => f x = false) l -> filter f l = [].
Proof.
  induction 1 as [| x l Hx _ IH]; simpl.
  - reflexivity.
  - now rewrite Hx.
Qed.




(** ** The dictionary built by the constructor *)

Lemma mem_In (u : string) (us : list string) : mem u us = true <-> In u us.
Proof.
  unfold mem. rewrite existsb_exists. split.
  - intros [x [Hin Heq]]. apply String.eqb_eq in Heq. now subst.
  - intros Hin. exists u. split; [assumption | apply String.eqb_refl].
Qed.

Lemma mem_not_In (u : string) (us : list string) : mem u us = false <-> ~ In u us.
Proof.
  rewrite <- mem_In. destruct (mem u us); split; congruence.
Qed.

Lemma distinct_snoc (us : list string) (u : string) :
  distinct (us ++ [u])
  = if mem u (distinct us) then distinct us else distinct us ++ [u].
Proof. unfold distinct. now rewrite fold_left_app. Qed.

Lemma distinct_In (us : list string) (u : string) : In u (distinct us) <-> In u us.
Proof.
  revert u. induction us as [| x us IH] using rev_ind; intros u.
  - reflexivity.
  - rewrite distinct_snoc, in_app_iff. simpl.
    destruct (mem x (distinct us)) eqn:E.
    + apply mem_In, IH in E. rewrite IH. split; [tauto |].
      intros [H | [H | []]]; [assumption | now subst].
    + rewrite in_app_iff, IH. simpl. tauto.
Qed.

Lemma distinct_NoDup (us : list string) : NoDup (distinct us).
Proof.
  induction us as [| x us IH] using rev_ind.
  - constructor.
  - rewrite distinct_snoc. destruct (mem x (distinct us)) eqn:E.
    + assumption.
    + apply mem_not_In in E. apply NoDup_app.
      * assumption.
      * constructor; [intros [] | constructor].
      * intros a Ha [Hx | []]. subst. contradiction.
Qed.

Lemma underlyings_In (batch : list TradeOperation) (u : string) :
  In u (underlyings batch) <-> exists t, In t batch /\ underlying t = u.
Proof.
  unfold underlyings. rewrite distinct_In, in_map_iff.
  split; intros [t [H1 H2]]; exists t; auto.
Qed.

Lemma group_of_snoc (u : string) (batch : list TradeOperation) (t : TradeOperation) :
  group_of u (batch ++ [t])
  = group_of u batch ++ (if String.eqb (underlying t) u then [t] else []).
Proof.
  unfold group_of. rewrite filter_app. simpl. unfold has_underlying.
  now destruct (String.eqb (underlying t) u).
Qed.

Lemma group_of_absent (u : string) (batch : list TradeOperation) :
  ~ In u (underlyings batch) -> group_of u batch = [].
Proof.
  intros Hn. apply filter_none. apply Forall_forall. intros t Ht.
  unfold has_underlying. destruct (String.eqb_spec (underlying t) u) as [E | E].
  - exfalso. apply Hn. apply underlyings_In. now exists t.
  - reflexivity.
Qed.

(** Appending under a key that the dictionary already has. *)
Lemma setdefault_append_present (us : list string) (batch : list TradeOperation)
      (t : TradeOperation) :
  NoDup us -> In (underlying t) us ->
  setdefault_append (map (fun u => (u, group_of u batch)) us) (underlying t) t
  = map (fun u => (u, group_of u (batch ++ [t]))) us.
Proof.
  induction 1 as [| u us Hu Hnd IH]; intros Hin.
  - destruct Hin.
  - simpl. rewrite group_of_snoc. rewrite (String.eqb_sym u).
    destruct (String.eqb_spec (underlying t) u) as [E | E].
    + f_equal. apply map_ext_in. intros v Hv. rewrite group_of_snoc.
      destruct (String.eqb_spec (underlying t) v) as [E' | E'].
      * exfalso. congruence.
      * now rewrite app_nil_r.
    + rewrite app_nil_r. f_equal. apply IH.
      destruct Hin as [Hin | Hin]; [congruence | assumption].
Qed.

(** Appending under a key that the dictionary does not have. *)
Lemma setdefault_append_absent (us : list string) (d : string -> list TradeOperation)
      (t : TradeOperation) :
  ~ In (underlying t) us ->
  setdefault_append (map (fun u => (u, d u)) us) (underlying t) t
  = map (fun u => (u, d u)) us ++ [(underlying t, [t])].
Proof.
  induction us as [| u us IH]; intros Hn.
  - reflexivity.
  - simpl. destruct (String.eqb_spec u (underlying t)) as [E | E].
    + exfalso. apply Hn. now left.
    + f_equal. apply IH. intros H. apply Hn. now right.
Qed.

Lemma init_snoc (batch : list TradeOperation) (t : TradeOperation) :
  trades_by_underlying (init (batch ++ [t]))
  = setdefault_append (trades_by_underlying (init batch)) (underlying t) t.
Proof. unfold init. simpl. now rewrite fold_left_app. Qed.

(** The constructor builds the grouping dictionary. *)
Lemma init_grouped (batch : list TradeOperation) :
  trades_by_underlying (init batch) = grouped batch.
Proof.
  induction batch as [| t batch IH] using rev_ind.
  - reflexivity.
  - rewrite init_snoc, IH. unfold grouped, underlyings.
    rewrite map_app. simpl map at 3. rewrite distinct_snoc.
    fold (underlyings batch).
    destruct (mem (underlying t) (underlyings batch)) eqn:E.
    + apply mem_In in E. apply setdefault_append_present; [| assumption].
      apply distinct_NoDup.
    + apply mem_not_In in E.
      rewrite (setdefault_append_absent _ (fun u => group_of u batch)) by assumption.
      rewrite map_app. simpl. f_equal.
      * apply map_ext_in. intros u Hu. rewrite group_of_snoc.
        destruct (String.eqb_spec (underlying t) u) as [E' | E'].
        -- exfalso. congruence.
        -- now rewrite app_nil_r.
      * rewrite group_of_snoc, String.eqb_refl, group_of_absent by assumption.
        reflexivity.
Qed.

Lemma grouped_keys (batch : list TradeOperation) :
  keys (grouped batch) = underlyings batch.
Proof.
  unfold keys, grouped. rewrite map_map. simpl. apply map_id.
Qed.

Lemma grouped_values (batch : list TradeOperation) :
  values (grouped batch) = map (fun u => group_of u batch) (underlyings batch).
Proof. unfold values, grouped. now rewrite map_map. Qed.

Lemma grouped_In (batch : list TradeOperation) (u : string) (g : list TradeOperation) :
  In (u, g) (grouped batch) <-> In u (underlyings batch) /\ g = group_of u batch.
Proof.
  unfold grouped. rewrite in_map_iff. split.
  - intros [v [E Hv]]. injection E as -> <-. auto.
  - intros [Hu ->]. now exists u.
Qed.

Lemma get_grouped (us : list string) (d : string -> list TradeOperation) (u : string) :
  get (map (fun v => (v, d v)) us) u = if mem u us then Some (d u) else None.
Proof.
  induction us as [| v us IH]; simpl.
  - reflexivity.
  - rewrite (String.eqb_sym u v).
    destruct (String.eqb_spec v u) as [-> | E]; [reflexivity | apply IH].
Qed.

(** ** Sums over the groups *)

Lemma fold_sum (A : Type) (f : A -> Decimal) (l : list A) (r : Decimal) :
  fold_left (fun acc x => (acc + f x)%Qc) l r = (r + sum_Decimal (map f l))%Qc.
Proof.
  revert r. induction l as [| x l IH]; intros r; simpl.
  - now rewrite Qcplus_0_r.
  - rewrite IH. fold (sum_Decimal (map f l)). ring.
Qed.

Lemma sum_Decimal_Permutation (l l' : list Decimal) :
  Permutation l l' -> sum_Decimal l = sum_Decimal l'.
Proof.
  induction 1 as [| x l l' _ IH | x y l | l l' l'' _ IH1 _ IH2]; simpl.
  - reflexivity.
  - now rewrite IH.
  - fold (sum_Decimal l). ring.
  - congruence.
Qed.

Lemma pnl_sum (self : TradingOperations) :
  pnl self = sum_Decimal (map underlying_pnl (values (trades_by_underlying self))).
Proof. unfold pnl. rewrite fold_sum. apply Qcplus_0_l. Qed.

(** The total over the underlyings, taken in any order [us]. *)
Lemma pnl_any_order (batch : list TradeOperation) (us : list string) :
  NoDup us ->
  (forall u, In u us <-> exists t, In t batch /\ underlying t = u) ->
  pnl (init batch)
  = sum_Decimal (map (fun u => underlying_pnl (group_of u batch)) us).
Proof.
  intros Hnd Hin. rewrite pnl_sum, init_grouped, grouped_values, map_map.
  apply sum_Decimal_Permutation, Permutation_map, NoDup_Permutation.
  - apply distinct_NoDup.
  - assumption.
  - intros u. now rewrite underlyings_In, Hin.
Qed.

(** ** The groups partition the batch *)

Lemma filter_all {A : Type} (f : A -> bool) (l : list A) :
  Forall (fun x => f x = true) l -> filter f l = l.
Proof.
  induction 1 as [| x l Hx _ IH]; simpl.
  - reflexivity.
  - now rewrite Hx, IH.
Qed.

Lemma filter_split {A : Type} (f g : A -> bool) (l : list A) :
  (forall x, f x = true -> g x = false) ->
  Permutation (filter f l ++ filter g l) (filter (fun x => f x || g x) l).
Proof.
  intros Hfg. induction l as [| x l IH]; simpl.
  - constructor.
  - destruct (f x) eqn:Ef.
    + rewrite (Hfg x Ef). simpl. now constructor.
    + destruct (g x); simpl.
      * apply Permutation_sym, Permutation_cons_app. now apply Permutation_sym.
      * assumption.
Qed.

Lemma concat_groups (us : list string) (batch : list TradeOperation) :
  NoDup us ->
  Permutation (List.concat (map (fun u => group_of u batch) us))
              (filter (fun t => mem (underlying t) us) batch).
Proof.
  induction 1 as [| u us Hu _ IH]; simpl.
  - rewrite filter_none; [constructor |]. now apply Forall_forall.
  - eapply Permutation_trans; [apply Permutation_app_head, IH |].
    apply (filter_split (has_underlying u)).
    intros t Ht. apply String.eqb_eq in Ht. apply mem_not_In. now rewrite Ht.
Qed.

Lemma concat_grouped (batch : list TradeOperation) :
  Permutation (List.concat (values (grouped batch))) batch.
Proof.
  rewrite grouped_values.
  eapply Permutation_trans; [apply concat_groups, distinct_NoDup |].
  rewrite filter_all; [reflexivity |].
  apply Forall_forall. intros t Ht. apply mem_In, underlyings_In. now exists t.
Qed.

(** ** The methods over the store *)

Lemma get_field_points_to {A : Type} (f : TradeOperation -> A) (h : heap) (a : addr)
      (t : TradeOperation) :
  points_to h a t -> get_field f a h = Some (f t, h).
Proof. unfold points_to, get_field. now intros ->. Qed.

Lemma read_only_ret {A : Type} (a : A) : read_only (ret a).
Proof. intros h x h' E. now injection E. Qed.

Lemma read_only_bind {A B : Type} (m : M A) (f : A -> M B) :
  read_only m -> (forall a, read_only (f a)) -> read_only (bind m f).
Proof.
  intros Hm Hf h b h' E. unfold bind in E.
  destruct (m h) as [[a h1] |] eqn:E1; [| discriminate].
  apply Hm in E1. subst h1. now apply (Hf a) in E.
Qed.

Lemma read_only_get_field {A : Type} (f : TradeOperation -> A) (a : addr) :
  read_only (get_field f a).
Proof.
  intros h x h' E. unfold get_field in E.
  destruct (nth_error h a); [now injection E | discriminate].
Qed.

Create HintDb read_only.
#[local] Hint Resolve read_only_ret read_only_get_field : read_only.

Ltac read_only_step :=
  repeat (apply read_only_bind; [auto with read_only | intros ?]);
  auto with read_only.

Lemma read_only_price_loop_obj (trades : list addr) (n : Z) (r : Decimal) :
  read_only (price_loop_obj trades n r).
Proof.
  revert n r. induction trades as [| t rest IH]; intros n r; simpl.
  - apply read_only_ret.
  - apply read_only_bind; [auto with read_only | intros q].
    destruct (q <=? n); read_only_step.
Qed.

Lemma read_only_select_direction (d : Direction) (trades : list addr) :
  read_only (select_direction d trades).
Proof.
  induction trades as [| t rest IH]; simpl.
  - apply read_only_ret.
  - read_only_step.
Qed.

Lemma read_only_sum_quantity (trades : list addr) (acc : Z) :
  read_only (sum_quantity trades acc).
Proof.
  revert acc. induction trades as [| t rest IH]; intros acc; simpl; read_only_step.
Qed.

#[local] Hint Resolve read_only_price_loop_obj read_only_select_direction
  read_only_sum_quantity : read_only.

Lemma read_only_underlying_pnl_obj (trades : list addr) :
  read_only (underlying_pnl_obj trades).
Proof.
  unfold underlying_pnl_obj.
  apply read_only_bind; [auto with read_only | intros buy].
  apply read_only_bind; [auto with read_only | intros sell].
  destruct (is_empty buy || is_empty sell).
  - apply read_only_ret.
  - unfold price_of_first_n_goods_obj. read_only_step.
Qed.

Lemma read_only_pnl_loop (groups : list (list addr)) (r : Decimal) :
  read_only (pnl_loop groups r).
Proof.
  revert r. induction groups as [| g rest IH]; intros r; simpl.
  - apply read_only_ret.
  - apply read_only_bind; [apply read_only_underlying_pnl_obj | intros x; apply IH].
Qed.

Lemma price_loop_obj_refines (h : heap) (trades : list addr) (ts : list TradeOperation)
      (n : Z) (r : Decimal) :
  Forall2 (points_to h) trades ts ->
  price_loop_obj trades n r h = Some (price_loop ts n r, h).
Proof.
  intros H. revert n r. induction H as [| a t trades ts Ha _ IH]; intros n r; simpl.
  - reflexivity.
  - unfold bind at 1. rewrite (get_field_points_to quantity h a t Ha).
    destruct (quantity t <=? n); unfold bind;
      rewrite ?(get_field_points_to quantity h a t Ha),
              (get_field_points_to price h a t Ha),
              ?(get_field_points_to quantity h a t Ha).
    + apply IH.
    + reflexivity.
Qed.

Lemma select_direction_refines (h : heap) (d : Direction) (trades : list addr)
      (ts : list TradeOperation) :
  Forall2 (points_to h) trades ts ->
  exists selected,
    select_direction d trades h = Some (selected, h)
    /\ Forall2 (points_to h) selected (filter (is_direction d) ts).
Proof.
  induction 1 as [| a t trades ts Ha _ [selected [E Hsel]]]; simpl.
  - exists []. split; [reflexivity | constructor].
  - unfold bind. rewrite (get_field_points_to direction h a t Ha), E.
    unfold ret, is_direction. eexists. split; [reflexivity |].
    destruct (Direction_eqb (direction t) d); [now constructor | assumption].
Qed.

Lemma sum_quantity_refines (h : heap) (trades : list addr) (ts : list TradeOperation)
      (acc : Z) :
  Forall2 (points_to h) trades ts ->
  sum_quantity trades acc h = Some (fold_left Z.add (map quantity ts) acc, h).
Proof.
  intros H. revert acc. induction H as [| a t trades ts Ha _ IH]; intros acc; simpl.
  - reflexivity.
  - unfold bind. rewrite (get_field_points_to quantity h a t Ha). apply IH.
Qed.

Lemma is_empty_Forall2 {A B : Type} (R : A -> B -> Prop) (l : list A) (l' : list B) :
  Forall2 R l l' -> is_empty l = is_empty l'.
Proof. now destruct 1. Qed.

Lemma underlying_pnl_obj_refines (h : heap) (trades : list addr) (ts : list TradeOperation) :
  Forall2 (points_to h) trades ts ->
  underlying_pnl_obj trades h = Some (underlying_pnl ts, h).
Proof.
  intros H. unfold underlying_pnl_obj, underlying_pnl.
  destruct (select_direction_refines h BUY trades ts H) as [buy [Eb Hb]].
  destruct (select_direction_refines h SELL trades ts H) as [sell [Es Hs]].
  unfold bind at 1. rewrite Eb. unfold bind at 1. rewrite Es.
  rewrite (is_empty_Forall2 _ _ _ Hb), (is_empty_Forall2 _ _ _ Hs).
  destruct (is_empty (filter (is_direction BUY) ts)
            || is_empty (filter (is_direction SELL) ts)).
  - reflexivity.
  - unfold bind at 1. rewrite (sum_quantity_refines h _ _ 0 Hb).
    unfold bind at 1. rewrite (sum_quantity_refines h _ _ 0 Hs).
    unfold price_of_first_n_goods_obj.
    unfold bind at 1. rewrite (price_loop_obj_refines h _ _ _ _ Hb).
    unfold bind at 1. rewrite (price_loop_obj_refines h _ _ _ _ Hs).
    reflexivity.
Qed.

Lemma pnl_loop_refines (h : heap) (groups : list (list addr))
      (gs : list (list TradeOperation)) (r : Decimal) :
  Forall2 (Forall2 (points_to h)) groups gs ->
  pnl_loop groups r h
  = Some (fold_left (fun result trades => (result + underlying_pnl trades)%Qc) gs r, h).
Proof.
  intros H. revert r. induction H as [| g ts groups gs Hg _ IH]; intros r; simpl.
  - reflexivity.
  - unfold bind. rewrite (underlying_pnl_obj_refines h g ts Hg). apply IH.
Qed.

Lemma represents_values (h : heap) (d : dict addr) (d' : dict TradeOperation) :
  represents h d d' -> Forall2 (Forall2 (points_to h)) (values d) (values d').
Proof.
  induction 1 as [| e e' d d' [_ He] _ IH]; simpl; now constructor.
Qed.

Lemma pnl_obj_refines (h : heap) (self : TradingOperations_obj) (self' : TradingOperations) :
  represents h (trades_by_underlying_obj self) (trades_by_underlying self') ->
  pnl_obj self h = Some (pnl self', h).
Proof.
  intros H. unfold pnl_obj, pnl. now apply pnl_loop_refines, represents_values.
Qed.

(** ** The constructor over the store *)

Lemma points_to_extend (h h' : heap) (a : addr) (t : TradeOperation) :
  points_to h a t -> points_to (h ++ h') a t.
Proof.
  unfold points_to. intros H. rewrite nth_error_app1; [assumption |].
  apply nth_error_Some. congruence.
Qed.

Lemma points_to_new (h : heap) (t : TradeOperation) :
  points_to (h ++ [t]) (List.length h) t.
Proof.
  unfold points_to. rewrite nth_error_app2 by lia. now rewrite Nat.sub_diag.
Qed.

Lemma represents_extend (h h' : heap) (d : dict addr) (d' : dict TradeOperation) :
  represents h d d' -> represents (h ++ h') d d'.
Proof.
  unfold represents. apply Forall2_impl. intros e e' [Hk Hl]. split; [assumption |].
  revert Hl. apply Forall2_impl. intros a t. apply points_to_extend.
Qed.

Lemma represents_setdefault_append (h : heap) (d : dict addr) (d' : dict TradeOperation)
      (k : string) (a : addr) (t : TradeOperation) :
  represents h d d' -> points_to h a t ->
  represents h (setdefault_append d k a) (setdefault_append d' k t).
Proof.
  intros H Ha. induction H as [| [k1 l] [k2 l'] d d' [Hk Hl] Hd IH]; simpl in *.
  - constructor; [| constructor]. split; [reflexivity |]. simpl. now repeat constructor.
  - subst k2. destruct (String.eqb k1 k).
    + constructor; [| assumption]. split; [reflexivity |]. simpl.
      apply Forall2_app; [assumption | now repeat constructor].
    + constructor; [| assumption]. now split.
Qed.

Lemma init_loop_refines (batch : list TradeOperation) (h : heap) (d : dict addr)
      (d' : dict TradeOperation) :
  represents h d d' ->
  exists d1,
    init_loop batch d h = Some (d1, h ++ batch)
    /\ represents (h ++ batch) d1
         (fold_left (fun acc trades_operation =>
                       setdefault_append acc (underlying trades_operation) trades_operation)
                    batch d').
Proof.
  revert h d d'. induction batch as [| t batch IH]; intros h d d' H; simpl.
  - exists d. rewrite app_nil_r. now split.
  - unfold bind, alloc.
    destruct (IH (h ++ [t]) (setdefault_append d (underlying t) (List.length h))
                 (setdefault_append d' (underlying t) t)) as [d1 [E Hd1]].
    + apply represents_setdefault_append.
      * now apply represents_extend.
      * apply points_to_new.
    + rewrite <- app_assoc in E, Hd1. simpl in E, Hd1. now exists d1.
Qed.

Lemma init_obj_refines (batch : list TradeOperation) (h : heap) :
  exists self,
    init_obj batch h = Some (self, h ++ batch)
    /\ represents (h ++ batch) (trades_by_underlying_obj self)
                  (trades_by_underlying (init batch)).
Proof.
  destruct (init_loop_refines batch h [] []) as [d1 [E Hd1]]; [constructor |].
  exists {| trades_by_underlying_obj := d1 |}. unfold init_obj, bind.
  rewrite E. now split.
Qed.

Lemma Direction_eqb_eq (a b : Direction) : Direction_eqb a b = true <-> a = b.
Proof. destruct a, b; simpl; split; congruence. Qed.

Lemma Qc_eq_bool_eq (p q : Decimal) : Qc_eq_bool p q = true <-> p = q.
Proof.
  split; [apply Qc_eq_bool_correct |].
  intros ->. unfold Qc_eq_bool. now destruct (Qc_eq_dec q q).
Qed.

(** ** What [__price_of_first_n_goods] and [__underlying_pnl] compute *)







(** C5: a trade group whose operations are all BUY, or all SELL, has a PNL
    of exactly 0, whatever its quantities and prices. *)
Theorem underlying_pnl_single_sided (trades : list TradeOperation) :
  Forall (fun t => direction t = BUY) trades
  \/ Forall (fun t => direction t = SELL) trades ->
  underlying_pnl trades = 0%Qc.
Proof.
  intros [H | H]; unfold underlying_pnl.
  - rewrite (filter_none (is_direction SELL)).
    + simpl. now rewrite orb_true_r.
    + revert H. apply Forall_impl. intros t Ht. unfold is_direction. now rewrite Ht.
  - rewrite (filter_none (is_direction BUY)).
    + reflexivity.
    + revert H. apply Forall_impl. intros t Ht. unfold is_direction. now rewrite Ht.
Qed.

Lemma underlying_pnl_single_sided_witness :
  underlying_pnl transactions_1 = 0%Qc.
Proof.
  apply (underlying_pnl_single_sided transactions_1).
  left. unfold transactions_1.
  repeat (apply Forall_cons; [reflexivity |]). apply Forall_nil.
Defined.

(** ** The constructor and the [pnl] property *)

(** C6: the constructor accepts the empty batch, on which its loop body is
    never run, and leaves an empty dictionary; [pnl] is then exactly 0.  Over
    the store, where a computation can fail, both return, and neither
    touches the store. *)
Theorem empty_batch :
  init [] = {| trades_by_underlying := [] |}
  /\ pnl (init []) = 0%Qc
  /\ (forall h, init_obj [] h = Some ({| trades_by_underlying_obj := [] |}, h))
  /\ (forall h, pnl_obj {| trades_by_underlying_obj := [] |} h = Some (0%Qc, h)).
Proof. repeat split. Qed.

(** C8: the dictionary built by the constructor partitions the batch.  Its
    keys are pairwise distinct and are the underlyings that occur in the
    batch; the group under a key is the sub-list of the batch's operations on
    that underlying, in the order of the batch; every operation of the batch
    lies in the group of its own underlying and in no group under another
    key; and the groups put together hold every operation of the batch as
    many times as the batch does. *)
Theorem init_partition (batch : list TradeOperation) :
  NoDup (keys (trades_by_underlying (init batch)))
  /\ (forall u, In u (keys (trades_by_underlying (init batch)))
                <-> exists t, In t batch /\ underlying t = u)
  /\ (forall u g, In (u, g) (trades_by_underlying (init batch)) ->
                  g = filter (has_underlying u) batch)
  /\ (forall t, In t batch ->
        exists g, get (trades_by_underlying (init batch)) (underlying t) = Some g
                  /\ In t g)
  /\ (forall t u g, In (u, g) (trades_by_underlying (init batch)) ->
                    In t g -> underlying t = u)
  /\ Permutation (List.concat (values (trades_by_underlying (init batch)))) batch.
Proof.
  rewrite init_grouped, grouped_keys.
  refine (conj _ (conj _ (conj _ (conj _ (conj _ _))))).
  - apply distinct_NoDup.
  - apply underlyings_In.
  - intros u g H. now apply grouped_In in H.
  - intros t Ht. exists (group_of (underlying t) batch). split.
    + unfold grouped. rewrite get_grouped.
      assert (mem (underlying t) (underlyings batch) = true) as ->.
      { apply mem_In, underlyings_In. now exists t. }
      reflexivity.
    + apply filter_In. split; [assumption | apply String.eqb_refl].
  - intros t u g H Ht. apply grouped_In in H. destruct H as [_ ->].
    apply filter_In in Ht. destruct Ht as [_ Ht]. now apply String.eqb_eq in Ht.
  - apply concat_grouped.
Qed.





(** C7: on the batch of [test_case_5], Oil BUY 1 at 100, Gas SELL 4 at 110,
    Gas BUY 2 at 120, Oil SELL 5 at 115, [pnl] returns exactly -5: the Oil
    group matches 1 unit and contributes 15, the Gas group matches 2 units,
    at a cost of 240 against proceeds of 220, and contributes -20. *)
Theorem test_case_5 :
  pnl (init transactions_5) = Decimal_of_int (-5)
  /\ get (trades_by_underlying (init transactions_5)) "Oil"
     = Some [op BUY 1 100 "Oil"; op SELL 5 115 "Oil"]
  /\ get (trades_by_underlying (init transactions_5)) "Gas"
     = Some [op SELL 4 110 "Gas"; op BUY 2 120 "Gas"]
  /\ matched_quantity (group_of "Oil" transactions_5) = 1
  /\ underlying_pnl (group_of "Oil" transactions_5) = Decimal_of_int 15
  /\ matched_quantity (group_of "Gas" transactions_5) = 2
  /\ price_of_first_n_goods 2 (buy_trades (group_of "Gas" transactions_5))
     = Decimal_of_int 240
  /\ price_of_first_n_goods 2 (sell_trades (group_of "Gas" transactions_5))
     = Decimal_of_int 220
  /\ underlying_pnl (group_of "Gas" transactions_5) = Decimal_of_int (-20).
Proof.
  refine (conj _ (conj _ (conj _ (conj _ (conj _ (conj _ (conj _ (conj _ _))))))));
    try reflexivity; apply Qc_is_canon; vm_compute; reflexivity.
Qed.

(** ** The objects of the store *)

(** C9: the quantity and the price of a [TradeOperation], like its other
    fields, are set when the constructor creates the object and are never
    written again by the system.  The constructor only adds objects to the
    store, one per record of the batch and with the fields of that record;
    [pnl], whenever it returns, leaves the store as it found it; what [pnl]
    returns is what the fields of the objects determine, whatever their
    addresses; and the equality of two operations is the equality of their
    four fields. *)
Theorem TradeOperation_fields_fixed :
  (forall trades_data h,
      exists self,
        init_obj trades_data h = Some (self, h ++ trades_data)
        /\ pnl_obj self (h ++ trades_data)
           = Some (pnl (init trades_data), h ++ trades_data))
  /\ (forall self, read_only (pnl_obj self))
  /\ (forall a b : TradeOperation,
         TradeOperation_eqb a b = true
         <-> direction a = direction b /\ quantity a = quantity b
             /\ price a = price b /\ underlying a = underlying b)
  /\ (forall a b : TradeOperation,
         direction a = direction b -> quantity a = quantity b ->
         price a = price b -> underlying a = underlying b -> a = b).
Proof.
  refine (conj _ (conj _ (conj _ _))).
  - intros trades_data h.
    destruct (init_obj_refines trades_data h) as [self [E H]].
    exists self. split; [assumption | now apply pnl_obj_refines].
  - intros self. apply read_only_pnl_loop.
  - intros a b. unfold TradeOperation_eqb.
    rewrite !andb_true_iff, Direction_eqb_eq, Z.eqb_eq, Qc_eq_bool_eq, String.eqb_eq.
    tauto.
  - intros [d q p u] [d' q' p' u']. simpl. congruence.
Qed.

(** ** More on [__price_of_first_n_goods] *)


(** Once the target is used up inside a list, what follows the list is never
    looked at: the loop has left through its [break]. *)
Theorem price_of_first_n_goods_stops (n : Z) (trades later : list TradeOperation) :
  0 <= n ->
  nonneg_quantities trades ->
  n < total_quantity trades ->
  price_of_first_n_goods n (trades ++ later) = price_of_first_n_goods n trades.
Proof.
  intros Hn Hq. revert n Hn. induction Hq as [| t rest Ht _ IH]; intros n Hn Hlt.
  - unfold total_quantity, sum_int in Hlt. simpl in Hlt. lia.
  - rewrite total_quantity_cons in Hlt. simpl app.
    destruct (Z.le_gt_cases (quantity t) n) as [Hle | Hgt].
    + rewrite !price_of_first_n_goods_cons_whole by assumption.
      rewrite IH by lia. reflexivity.
    + rewrite !price_of_first_n_goods_cons_part by assumption. reflexivity.
Qed.

Lemma price_of_first_n_goods_stops_witness :
  price_of_first_n_goods 3 (transactions_1 ++ transactions_2)
  = price_of_first_n_goods 3 transactions_1.
Proof.
  apply (price_of_first_n_goods_stops 3 transactions_1 transactions_2).
  - lia.
  - unfold nonneg_quantities, transactions_1.
    repeat (apply Forall_cons; [discriminate |]). apply Forall_nil.
  - vm_compute. reflexivity.
Defined.



Lemma sum_Decimal_nonneg (l : list Decimal) :
  Forall (fun p => (0 <= p)%Qc) l -> (0 <= sum_Decimal l)%Qc.
Proof.
  induction 1 as [| p l Hp _ IH]; simpl.
  - apply Qcle_refl.
  - fold (sum_Decimal l). rewrite <- (Qcplus_0_l 0). now apply Qcplus_le_compat.
Qed.

Lemma Forall_firstn {A : Type} (P : A -> Prop) (k : nat) (l : list A) :
  Forall P l -> Forall P (firstn k l).
Proof.
  intros H. revert k. induction H as [| x l Hx _ IH]; intros k.
  - rewrite firstn_nil. constructor.
  - destruct k as [| k]; simpl; constructor; auto.
Qed.

Lemma sum_firstn_mono (a b : nat) (l : list Decimal) :
  (a <= b)%nat -> Forall (fun p => (0 <= p)%Qc) l ->
  (sum_Decimal (firstn a l) <= sum_Decimal (firstn b l))%Qc.
Proof.
  intros Hab Hl. revert a b Hab. induction Hl as [| p l Hp Hl IH]; intros a b Hab.
  - rewrite !firstn_nil. apply Qcle_refl.
  - destruct a as [| a].
    + apply sum_Decimal_nonneg, Forall_firstn. now constructor.
    + destruct b as [| b]; [lia |]. simpl.
      apply Qcplus_le_compat; [apply Qcle_refl | apply IH; lia].
Qed.

Lemma units_Forall (P : Decimal -> Prop) (trades : list TradeOperation) :
  Forall (fun t => P (price t)) trades -> Forall P (units trades).
Proof.
  induction 1 as [| t l Ht _ IH]; unfold units in *; simpl.
  - constructor.
  - apply Forall_app. split; [| assumption].
    apply Forall_forall. intros p Hp. apply repeat_spec in Hp. now subst.
Qed.

(** With prices that are not negative, a larger target never costs less. *)
Theorem price_of_first_n_goods_monotone (n m : Z) (trades : list TradeOperation) :
  0 <= n <= m ->
  nonneg_quantities trades ->
  nonneg_prices trades ->
  (price_of_first_n_goods n trades <= price_of_first_n_goods m trades)%Qc.
Proof.
  intros Hnm Hq Hp. rewrite !price_of_first_n_goods_units by (assumption || lia).
  unfold cost_of_first_units. apply sum_firstn_mono; [lia |].
  now apply units_Forall.
Qed.

Lemma price_of_first_n_goods_monotone_witness :
  (price_of_first_n_goods 3 transactions_1 <= price_of_first_n_goods 5 transactions_1)%Qc.
Proof.
  apply (price_of_first_n_goods_monotone 3 5 transactions_1).
  - lia.
  - unfold nonneg_quantities, transactions_1.
    repeat (apply Forall_cons; [discriminate |]). apply Forall_nil.
  - unfold nonneg_prices, transactions_1.
    repeat (apply Forall_cons; [discriminate |]). apply Forall_nil.
Defined.



(** ** More on [__underlying_pnl] *)

Lemma underlying_pnl_cases (trades : list TradeOperation) :
  underlying_pnl trades
  = if is_empty (buy_trades trades) || is_empty (sell_trades trades) then 0%Qc
    else (price_of_first_n_goods (matched_quantity trades) (sell_trades trades)
          - price_of_first_n_goods (matched_quantity trades) (buy_trades trades))%Qc.
Proof. reflexivity. Qed.

Lemma is_empty_map {A B : Type} (f : A -> B) (l : list A) :
  is_empty (map f l) = is_empty l.
Proof. now destruct l. Qed.

(** The loop reads the quantity and the price of a trade, nothing else. *)
Lemma price_of_first_n_goods_map (f : TradeOperation -> TradeOperation) (n : Z)
      (trades : list TradeOperation) :
  (forall t, quantity (f t) = quantity t) ->
  (forall t, price (f t) = price t) ->
  price_of_first_n_goods n (map f trades) = price_of_first_n_goods n trades.
Proof.
  intros Hq Hp. revert n. induction trades as [| t rest IH]; intros n.
  - reflexivity.
  - simpl map. destruct (Z.le_gt_cases (quantity t) n) as [Hle | Hgt].
    + rewrite !price_of_first_n_goods_cons_whole by (rewrite ?Hq; assumption).
      now rewrite Hq, Hp, IH.
    + rewrite !price_of_first_n_goods_cons_part by (rewrite ?Hq; assumption).
      now rewrite Hp.
Qed.

Lemma total_quantity_map (f : TradeOperation -> TradeOperation)
      (trades : list TradeOperation) :
  (forall t, quantity (f t) = quantity t) ->
  total_quantity (map f trades) = total_quantity trades.
Proof.
  intros Hq. unfold total_quantity. rewrite map_map. f_equal.
  apply map_ext. intros t. apply Hq.
Qed.

Lemma filter_direction_map (f : TradeOperation -> TradeOperation) (d d' : Direction)
      (trades : list TradeOperation) :
  (forall t, is_direction d (f t) = is_direction d' t) ->
  filter (is_direction d) (map f trades) = map f (filter (is_direction d') trades).
Proof.
  intros Hd. rewrite filter_map_swap. f_equal. apply filter_ext. intros t. apply Hd.
Qed.

Lemma flip_is_direction (d : Direction) (t : TradeOperation) :
  is_direction d (flip t) = is_direction (flip_direction d) t.
Proof. unfold is_direction. simpl. now destruct (direction t), d. Qed.

Lemma underlying_pnl_flip_eq (trades : list TradeOperation) :
  underlying_pnl (map flip trades) = (- underlying_pnl trades)%Qc.
Proof.
  rewrite !underlying_pnl_cases. unfold matched_quantity, buy_trades, sell_trades.
  rewrite (filter_direction_map flip BUY SELL), (filter_direction_map flip SELL BUY)
    by apply flip_is_direction.
  rewrite !is_empty_map, !total_quantity_map by reflexivity.
  rewrite !price_of_first_n_goods_map by reflexivity.
  rewrite orb_comm, Z.min_comm.
  destruct (is_empty (filter (is_direction BUY) trades)
            || is_empty (filter (is_direction SELL) trades)); ring.
Qed.

(** Exchanging BUY and SELL in every operation of a group changes the sign
    of its PNL. *)
Theorem underlying_pnl_flip (trades : list TradeOperation) :
  underlying_pnl (map flip trades) = (- underlying_pnl trades)%Qc.
Proof. apply underlying_pnl_flip_eq. Qed.




Lemma filter_direction_same (d : Direction) (trades : list TradeOperation) :
  filter (is_direction d) (filter (is_direction d) trades)
  = filter (is_direction d) trades.
Proof.
  apply filter_all, Forall_forall. intros t Ht. now apply filter_In in Ht.
Qed.

Lemma filter_direction_other (d : Direction) (trades : list TradeOperation) :
  filter (is_direction d) (filter (is_direction (flip_direction d)) trades) = [].
Proof.
  apply filter_none, Forall_forall. intros t Ht. apply filter_In in Ht.
  destruct Ht as [_ Ht]. unfold is_direction in *.
  destruct (direction t), d; simpl in *; congruence.
Qed.

(** Only the order among the BUY operations and the order among the SELL
    operations of a group count: the group has the PNL of its SELL
    operations followed by its BUY operations. *)
Theorem underlying_pnl_sides (trades : list TradeOperation) :
  underlying_pnl trades = underlying_pnl (sell_trades trades ++ buy_trades trades).
Proof.
  rewrite (underlying_pnl_cases (_ ++ _)).
  unfold matched_quantity, buy_trades, sell_trades. rewrite !filter_app.
  rewrite !filter_direction_same.
  rewrite (filter_direction_other BUY), (filter_direction_other SELL).
  rewrite app_nil_r. reflexivity.
Qed.
















(** ** More on the dictionary and on the constructor *)

(** After [d[k].append(v)] the list under [k] is the former one, or the empty
    list if [k] was missing, with [v] at its end. *)
Theorem get_setdefault_append_same {V : Type} (d : dict V) (k : string) (v : V) :
  get (setdefault_append d k v) k
  = Some (match get d k with
          | Some l => l ++ [v]
          | None => [v]
          end).
Proof.
  induction d as [| [k' l] d IH]; simpl.
  - now rewrite String.eqb_refl.
  - destruct (String.eqb k' k) eqn:E; simpl; rewrite E; [reflexivity | apply IH].
Qed.

Lemma get_setdefault_append_ne {V : Type} (d : dict V) (k k' : string) (v : V) :
  k' <> k -> get (setdefault_append d k v) k' = get d k'.
Proof.
  intros Hne. induction d as [| [k1 l] d IH]; simpl.
  - destruct (String.eqb_spec k k'); [congruence | reflexivity].
  - destruct (String.eqb_spec k1 k) as [-> | E]; simpl.
    + destruct (String.eqb_spec k k'); [congruence | reflexivity].
    + destruct (String.eqb k1 k'); [reflexivity | apply IH].
Qed.

(** [d[k].append(v)] leaves the list under every other key as it was. *)
Theorem get_setdefault_append_other {V : Type} (d : dict V) (k k' : string) (v : V) :
  k' <> k -> get (setdefault_append d k v) k' = get d k'.
Proof. apply get_setdefault_append_ne. Qed.

Lemma get_setdefault_append_other_witness :
  get (setdefault_append [("Oil"%string, [1%nat])] "Gas"%string 2%nat) "Oil"%string
  = get [("Oil"%string, [1%nat])] "Oil"%string.
Proof.
  apply (get_setdefault_append_other [("Oil"%string, [1%nat])]
                                     "Gas"%string "Oil"%string 2%nat).
  discriminate.
Defined.

(** [d[k].append(v)] keeps the keys in place and puts a key that was missing
    at the end. *)
Lemma keys_setdefault_append {V : Type} (d : dict V) (k : string) (v : V) :
  keys (setdefault_append d k v) = if mem k (keys d) then keys d else keys d ++ [k].
Proof.
  induction d as [| [k' l] d IH]; simpl.
  - reflexivity.
  - rewrite (String.eqb_sym k k'). destruct (String.eqb k' k); simpl.
    + reflexivity.
    + rewrite IH. now destruct (mem k (keys d)).
Qed.

Lemma mem_underlyings (batch : list TradeOperation) (u : string) :
  mem u (underlyings batch) = existsb (has_underlying u) batch.
Proof.
  destruct (existsb (has_underlying u) batch) eqn:E.
  - apply mem_In, underlyings_In. apply existsb_exists in E.
    destruct E as [x [Hx Hu]]. exists x. split; [assumption |].
    now apply String.eqb_eq in Hu.
  - apply mem_not_In. intros H. apply underlyings_In in H.
    destruct H as [x [Hx Hu]].
    assert (existsb (has_underlying u) batch = true) as E'.
    { apply existsb_exists. exists x. split; [assumption |].
      now apply String.eqb_eq. }
    congruence.
Qed.

(** The keys of the constructor's dictionary are in the order in which the
    underlyings first appear in the batch: one more operation adds its
    underlying at the end if no earlier operation has it, and no key
    otherwise. *)
Theorem init_keys_order (batch : list TradeOperation) (t : TradeOperation) :
  keys (trades_by_underlying (init (batch ++ [t])))
  = if existsb (has_underlying (underlying t)) batch
    then keys (trades_by_underlying (init batch))
    else keys (trades_by_underlying (init batch)) ++ [underlying t].
Proof.
  rewrite init_snoc, keys_setdefault_append, init_grouped, grouped_keys.
  now rewrite mem_underlyings.
Qed.

(** The constructor never leaves an empty group: a key enters the dictionary
    only with the operation that is appended under it. *)
Theorem init_no_empty_group (batch : list TradeOperation) (u : string)
        (g : list TradeOperation) :
  In (u, g) (trades_by_underlying (init batch)) -> g <> [].
Proof.
  rewrite init_grouped. intros H. apply grouped_In in H. destruct H as [Hu ->].
  apply underlyings_In in Hu. destruct Hu as [t [Ht Hu]].
  assert (In t (group_of u batch)) as Hin.
  { apply filter_In. split; [assumption |]. now apply String.eqb_eq. }
  intros E. rewrite E in Hin. destruct Hin.
Qed.

Lemma init_no_empty_group_witness :
  [op BUY 1 100 "Oil"%string; op SELL 5 115 "Oil"%string] <> [].
Proof.
  apply (init_no_empty_group transactions_5 "Oil"%string).
  simpl. left. reflexivity.
Defined.

(** Looking up an underlying in the constructor's dictionary gives the
    operations of the batch on it, in batch order, and nothing when the
    batch has no operation on it. *)
Theorem init_get (batch : list TradeOperation) (u : string) :
  get (trades_by_underlying (init batch)) u
  = if existsb (has_underlying u) batch then Some (group_of u batch) else None.
Proof.
  rewrite init_grouped. unfold grouped. rewrite get_grouped.
  now rewrite mem_underlyings.
Qed.

(** ** More on [pnl] *)


Lemma pnl_underlyings (batch : list TradeOperation) :
  pnl (init batch)
  = sum_Decimal (map (fun u => underlying_pnl (group_of u batch)) (underlyings batch)).
Proof.
  apply pnl_any_order; [apply distinct_NoDup | apply underlyings_In].
Qed.



(** On a batch whose operations are all on one underlying, [pnl] is the PNL
    of the batch taken as one group. *)
Theorem pnl_single_underlying (batch : list TradeOperation) (u : string) :
  Forall (fun t => underlying t = u) batch ->
  pnl (init batch) = underlying_pnl batch.
Proof.
  intros Hu. destruct batch as [| t batch].
  - reflexivity.
  - rewrite (pnl_any_order (t :: batch) [u]).
    + cbn [map sum_Decimal fold_right]. unfold group_of. rewrite filter_all.
      * apply Qcplus_0_r.
      * revert Hu. apply Forall_impl. intros x Hx. unfold has_underlying.
        rewrite Hx. apply String.eqb_refl.
    + constructor; [intros [] | constructor].
    + intros v. rewrite Forall_forall in Hu. split.
      * intros [<- | []]. exists t. split; [now left | apply Hu; now left].
      * intros [x [Hx Hv]]. left. rewrite <- Hv. symmetry. now apply Hu.
Qed.

Lemma pnl_single_underlying_witness :
  pnl (init transactions_4) = underlying_pnl transactions_4.
Proof.
  apply (pnl_single_underlying transactions_4 "Oil"%string).
  unfold transactions_4. repeat (apply Forall_cons; [reflexivity |]). apply Forall_nil.
Defined.

Lemma sum_Decimal_zero (l : list Decimal) :
  Forall (fun p => p = 0%Qc) l -> sum_Decimal l = 0%Qc.
Proof.
  induction 1 as [| p l Hp _ IH]; simpl.
  - reflexivity.
  - fold (sum_Decimal l). rewrite Hp, IH. apply Qcplus_0_l.
Qed.

Lemma underlying_pnl_one_side_empty (trades : list TradeOperation) :
  buy_trades trades = [] \/ sell_trades trades = [] -> underlying_pnl trades = 0%Qc.
Proof.
  intros [H | H]; rewrite underlying_pnl_cases, H; simpl.
  - reflexivity.
  - now rewrite orb_true_r.
Qed.

(** A batch in which no underlying has both a BUY and a SELL has a PNL of
    exactly 0. *)
Theorem pnl_nothing_matched (batch : list TradeOperation) :
  (forall b s, In b batch -> In s batch ->
               direction b = BUY -> direction s = SELL ->
               underlying b <> underlying s) ->
  pnl (init batch) = 0%Qc.
Proof.
  intros H. rewrite pnl_underlyings. apply sum_Decimal_zero.
  apply Forall_map, Forall_forall. intros u _.
  apply underlying_pnl_one_side_empty. unfold buy_trades, sell_trades.
  destruct (filter (is_direction BUY) (group_of u batch)) as [| b l] eqn:Eb;
    [now left |].
  destruct (filter (is_direction SELL) (group_of u batch)) as [| s l'] eqn:Es;
    [now right |].
  exfalso.
  assert (In b (filter (is_direction BUY) (group_of u batch))) as Hb
    by (rewrite Eb; now left).
  assert (In s (filter (is_direction SELL) (group_of u batch))) as Hs
    by (rewrite Es; now left).
  apply filter_In in Hb, Hs. destruct Hb as [Hb Hdb], Hs as [Hs Hds].
  apply filter_In in Hb, Hs. destruct Hb as [Hb Hub], Hs as [Hs Hus].
  apply String.eqb_eq in Hub, Hus. unfold is_direction in *.
  apply (H b s Hb Hs).
  - now destruct (direction b).
  - now destruct (direction s).
  - congruence.
Qed.

Lemma pnl_nothing_matched_witness :
  pnl (init transactions_1) = 0%Qc.
Proof.
  apply (pnl_nothing_matched transactions_1).
  intros b s Hb Hs Hdb Hds. simpl in Hs.
  destruct Hs as [<- | [<- | [<- | []]]]; discriminate Hds.
Defined.

(** Exchanging BUY and SELL in every operation of a batch changes the sign
    of its PNL. *)
Theorem pnl_flip (batch : list TradeOperation) :
  pnl (init (map flip batch)) = (- pnl (init batch))%Qc.
Proof.
  rewrite (pnl_any_order (map flip batch) (underlyings batch)).
  - rewrite pnl_underlyings.
    induction (underlyings batch) as [| u us IH]; simpl.
    + ring.
    + fold (sum_Decimal (map (fun u => underlying_pnl (group_of u (map flip batch))) us)).
      fold (sum_Decimal (map (fun u => underlying_pnl (group_of u batch)) us)).
      rewrite IH. unfold group_of at 1. rewrite filter_map_swap.
      rewrite underlying_pnl_flip_eq. unfold group_of. 
      rewrite (filter_ext (fun a => has_underlying u (flip a)) (has_underlying u))
        by reflexivity.
      ring.
  - apply distinct_NoDup.
  - intros u. rewrite underlyings_In. split.
    + intros [t [Ht Hu]]. exists (flip t). split; [now apply in_map | assumption].
    + intros [t [Ht Hu]]. apply in_map_iff in Ht. destruct Ht as [x [<- Hx]].
      now exists x.
Qed.

(** ** More on the store *)

(** [pnl] can be asked again: a second call on the store left by the first
    returns the same value and leaves the same store. *)
Theorem pnl_obj_again (self : TradingOperations_obj) (h h' : heap) (r : Decimal) :
  pnl_obj self h = Some (r, h') ->
  pnl_obj self h' = Some (r, h').
Proof.
  intros E. pose proof (read_only_pnl_loop _ _ _ _ _ E) as Hh. now subst h'.
Qed.

Lemma pnl_obj_again_witness :
  pnl_obj {| trades_by_underlying_obj := [("Oil"%string, [0; 1; 2]%nat)] |}
          transactions_1
  = Some ((0 + 0)%Qc, transactions_1).
Proof.
  apply (pnl_obj_again {| trades_by_underlying_obj := [("Oil"%string, [0; 1; 2]%nat)] |}
                       transactions_1 transactions_1 (0 + 0)%Qc).
  reflexivity.
Defined.

Lemma concat_setdefault_append {V : Type} (d : dict V) (k : string) (v : V) :
  Permutation (List.concat (values (setdefault_append d k v)))
              (List.concat (values d) ++ [v]).
Proof.
  induction d as [| [k' l] d IH]; simpl.
  - reflexivity.
  - destruct (String.eqb k' k); simpl.
    + rewrite <- !app_assoc. apply Permutation_app_head, Permutation_app_comm.
    + rewrite <- app_assoc. now apply Permutation_app_head.
Qed.

Lemma init_loop_addresses (batch : list TradeOperation) (h : heap) (d : dict addr) :
  exists d1,
    init_loop batch d h = Some (d1, h ++ batch)
    /\ Permutation (List.concat (values d1))
                   (List.concat (values d) ++ seq (List.length h) (List.length batch)).
Proof.
  revert h d. induction batch as [| t batch IH]; intros h d; simpl.
  - exists d. rewrite !app_nil_r. now split.
  - unfold bind, alloc.
    destruct (IH (h ++ [t]) (setdefault_append d (underlying t) (List.length h)))
      as [d1 [E Hd1]].
    exists d1. rewrite <- app_assoc in E. split; [exact E |].
    eapply Permutation_trans; [exact Hd1 |].
    rewrite length_app, Nat.add_1_r. 
    eapply Permutation_trans;
      [apply Permutation_app_tail, concat_setdefault_append |].
    now rewrite <- app_assoc.
Qed.

(** The constructor creates one object per record of the batch, and the
    dictionary refers to each of the new objects exactly once and to no
    object that was in the store before: no object is shared between two
    groups or listed twice. *)
Theorem init_obj_fresh (batch : list TradeOperation) (h : heap) :
  exists self,
    init_obj batch h = Some (self, h ++ batch)
    /\ Permutation (List.concat (values (trades_by_underlying_obj self)))
                   (seq (List.length h) (List.length batch)).
Proof.
  destruct (init_loop_addresses batch h []) as [d1 [E Hd1]].
  exists {| trades_by_underlying_obj := d1 |}. unfold init_obj, bind.
  rewrite E. now split.
Qed.

(** ** The constructor on keyword dictionaries *)

Lemma TradeOperation_new_kwargs_of (t : TradeOperation) :
  TradeOperation_new (kwargs_of t) = Returns t.
Proof. now destruct t. Qed.

Lemma TradeOperation_new_Returns (kw : kwargs) (t : TradeOperation) :
  TradeOperation_new kw = Returns t -> kw = kwargs_of t.
Proof.
  destruct kw as [[d |] [q |] [p |] [u |] [| x other]]; unfold TradeOperation_new;
    simpl; intros H; try discriminate H.
  injection H as <-. reflexivity.
Qed.

Lemma TradeOperation_new_incomplete (kw : kwargs) :
  ~ complete kw -> TradeOperation_new kw = Raises TypeError.
Proof.
  intros Hn. destruct (TradeOperation_new kw) as [t | e] eqn:E.
  - exfalso. apply Hn. exists t. now apply TradeOperation_new_Returns.
  - destruct kw as [[d |] [q |] [p |] [u |] [| x other]];
      unfold TradeOperation_new in E; simpl in E; congruence.
Qed.

Lemma init_kwargs_loop_app (ts : list TradeOperation) (l : list kwargs)
      (d : dict TradeOperation) :
  init_kwargs_loop (map kwargs_of ts ++ l) d
  = init_kwargs_loop l
      (fold_left (fun acc trades_operation =>
                    setdefault_append acc (underlying trades_operation) trades_operation)
                 ts d).
Proof.
  revert d. induction ts as [| t ts IH]; intros d.
  - reflexivity.
  - simpl map. simpl app. simpl fold_left. rewrite <- IH.
    cbn [init_kwargs_loop]. rewrite TradeOperation_new_kwargs_of. reflexivity.
Qed.

Lemma complete_map (l : list kwargs) :
  Forall complete l -> exists ts, l = map kwargs_of ts.
Proof.
  induction 1 as [| kw l [t ->] _ [ts ->]].
  - now exists [].
  - now exists (t :: ts).
Qed.

Lemma init_kwargs_kwargs_of (ts : list TradeOperation) :
  init_kwargs (map kwargs_of ts) = Returns (init ts).
Proof.
  unfold init_kwargs. rewrite <- (app_nil_r (map kwargs_of ts)).
  rewrite init_kwargs_loop_app. reflexivity.
Qed.

(** On dictionaries that hold exactly the four fields the constructor
    returns, and builds the instance of the first embedding. *)
Theorem init_kwargs_complete (ts : list TradeOperation) :
  init_kwargs (map kwargs_of ts) = Returns (init ts).
Proof. apply init_kwargs_kwargs_of. Qed.

Lemma init_kwargs_loop_Returns (l : list kwargs) (d d1 : dict TradeOperation) :
  init_kwargs_loop l d = Returns d1 -> Forall complete l.
Proof.
  revert d. induction l as [| kw l IH]; intros d H.
  - constructor.
  - simpl in H. destruct (kw_underlying kw) as [u |]; [| discriminate H].
    destruct (TradeOperation_new kw) as [t | e] eqn:E; [| discriminate H].
    constructor.
    + exists t. now apply TradeOperation_new_Returns.
    + now apply (IH _ H).
Qed.

(** The constructor returns only if every dictionary of the batch holds
    exactly the four fields. *)
Theorem init_kwargs_Returns (l : list kwargs) (self : TradingOperations) :
  init_kwargs l = Returns self ->
  exists ts, l = map kwargs_of ts /\ self = init ts.
Proof.
  intros H. unfold init_kwargs in H.
  destruct (init_kwargs_loop l []) as [d1 |] eqn:E; [| discriminate H].
  destruct (complete_map l (init_kwargs_loop_Returns l [] d1 E)) as [ts ->].
  exists ts. split; [reflexivity |].
  pose proof (init_kwargs_kwargs_of ts) as Hc. unfold init_kwargs in Hc.
  rewrite E in Hc. congruence.
Qed.

Lemma init_kwargs_Returns_witness :
  exists ts, map kwargs_of transactions_2 = map kwargs_of ts
             /\ init transactions_2 = init ts.
Proof.
  apply (init_kwargs_Returns (map kwargs_of transactions_2) (init transactions_2)).
  reflexivity.
Defined.

(** The first dictionary of the batch that is not complete decides the
    error.  If it has no key "underlying" the constructor raises [KeyError]
    for that key, whatever else it lacks or holds. *)
Theorem init_kwargs_KeyError (good : list TradeOperation) (bad : kwargs)
        (rest : list kwargs) :
  kw_underlying bad = None ->
  init_kwargs (map kwargs_of good ++ bad :: rest) = Raises (KeyError "underlying").
Proof.
  intros H. unfold init_kwargs. rewrite init_kwargs_loop_app. simpl.
  now rewrite H.
Qed.

Lemma init_kwargs_KeyError_witness :
  init_kwargs (map kwargs_of transactions_2
               ++ mkKwargs (Some BUY) None None None ["note"%string] :: [])
  = Raises (KeyError "underlying").
Proof.
  apply (init_kwargs_KeyError transactions_2
           (mkKwargs (Some BUY) None None None ["note"%string]) []).
  reflexivity.
Defined.

(** If it has the key "underlying" but lacks another field, or holds a key
    that is not a field, the constructor raises [TypeError]. *)
Theorem init_kwargs_TypeError (good : list TradeOperation) (bad : kwargs)
        (rest : list kwargs) (u : string) :
  kw_underlying bad = Some u ->
  kw_direction bad = None \/ kw_quantity bad = None \/ kw_price bad = None
  \/ kw_other bad <> [] ->
  init_kwargs (map kwargs_of good ++ bad :: rest) = Raises TypeError.
Proof.
  intros Hu Hbad. unfold init_kwargs. rewrite init_kwargs_loop_app. simpl.
  rewrite Hu, TradeOperation_new_incomplete; [reflexivity |].
  intros [t ->]. simpl in Hbad.
  destruct Hbad as [H | [H | [H | H]]]; congruence.
Qed.

Lemma init_kwargs_TypeError_witness :
  init_kwargs (map kwargs_of transactions_2
               ++ mkKwargs (Some BUY) (Some 1) None (Some "Oil"%string) [] :: [])
  = Raises TypeError.
Proof.
  apply (init_kwargs_TypeError transactions_2
           (mkKwargs (Some BUY) (Some 1) None (Some "Oil"%string) []) []
           "Oil"%string).
  - reflexivity.
  - right. right. left. reflexivity.
Defined.

(** ** The enumeration and the test suite *)

(** The two members of [Direction] have different values, so neither is an
    alias of the other, and looking a member up by its value gives the member
    back; any other string is the value of no member. *)
Theorem Direction_value_round_trip :
  (forall d, Direction_of_value (Direction_value d) = Some d)
  /\ (forall s d, Direction_of_value s = Some d -> s = Direction_value d)
  /\ Direction_value BUY <> Direction_value SELL.
Proof.
  refine (conj _ (conj _ _)).
  - intros []; reflexivity.
  - intros s d. unfold Direction_of_value.
    destruct (String.eqb_spec s "Buy") as [-> | _].
    + intros H. injection H as <-. reflexivity.
    + destruct (String.eqb_spec s "Sell") as [-> | _].
      * intros H. injection H as <-. reflexivity.
      * discriminate.
  - discriminate.
Qed.

(** The assertions of [TestTradingOperations] other than [test_case_5]:
    test cases 1 to 4 and 6 to 9 pass. *)
Example TestTradingOperations_pass :
  pnl (init transactions_1) = Decimal_of_int 0
  /\ pnl (init transactions_2) = Decimal_of_int 20
  /\ pnl (init transactions_3) = Decimal_of_int 10
  /\ pnl (init transactions_4) = (- Decimal_of_int 20)%Qc
  /\ pnl (init []) = Decimal_of_int 0
  /\ pnl (init transactions_7) = Decimal_of_int 40
  /\ pnl (init transactions_8) = Decimal_of_int 38
  /\ pnl (init transactions_9) = (- Decimal_of_int 11)%Qc.
Proof.
  repeat split; apply Qc_is_canon; vm_compute; reflexivity.
Qed.
